(** * Guo firmware: number theory and binomial distribution routines

    A shallow embedding of [Firmware/Mathematics/number_theory.cpp] and
    [Firmware/Mathematics/distributions.cpp], with the machine types they
    use, and the properties stated about them.

    Conventions of the embedding.
    - [int] is 32 bits, [long] and [size_t] are 64 bits and a pointer
      occupies 8 bytes (the LP64 data model).  Integer values are carried as
      [Z]; every arithmetic result is reduced to its type with the
      wrap-around written out ([wrap_signed], [wrap_unsigned]).
    - [double] is IEEE 754 binary64, carried as Rocq's primitive [float]:
      [/], [-] and [==] of the source are [PrimFloat.div], [PrimFloat.sub]
      and [PrimFloat.eqb].
    - [double8192_t] is declared in [Firmware/Namespaces/data.cpp] as a
      string placeholder without arithmetic, for a signed number of 8192
      bits.  It is read as the spec's wide integer of that width: a sign and
      a magnitude below [2 ^ 8192], carried as [Z], with [/] the truncating
      quotient [Z.quot].  Values enter it through [factorial] only, which
      fails where its result leaves the width.
    - An array parameter ([double set[]]) is a pointer: the callee sees the
      cells [set[0]], [set[1]], ... and no length.  It is carried as the
      function from index to cell contents.
    - A local array ([double result[sizeof(set)]]) is carried cell by cell,
      with the number of cells it is declared with: a store at an index
      outside them is undefined behaviour ([store_result]).  A returned
      pointer to it is carried as the contents of the array at the return.
    - A call returns a value, fails with one of the error kinds of the error
      handling design, or has undefined behaviour; a failure propagates to
      the caller as a C++ exception does, and so does undefined behaviour
      ([outcome], [bind]). *)

From Stdlib Require Import ZArith List Bool Lia.
From Stdlib Require Import Floats.
Import ListNotations.

#[local] Set Warnings "-inexact-float".
#[local] Open Scope Z_scope.

(** ** Machine types *)

Module Data.

Definition wrap_unsigned (bits z : Z) : Z := z mod 2 ^ bits.

Definition wrap_signed (bits z : Z) : Z :=
  (z + 2 ^ (bits - 1)) mod 2 ^ bits - 2 ^ (bits - 1).

Definition INT_BITS : Z := 32.
Definition LONG_BITS : Z := 64.

(** [sizeof] of any object pointer, in particular of a parameter declared
    [double set[]] or [char *filestream]. *)
Definition sizeof_pointer : Z := 8.

Definition in_int (z : Z) : Prop := - 2 ^ 31 <= z < 2 ^ 31.
Definition in_long (z : Z) : Prop := - 2 ^ 63 <= z < 2 ^ 63.

(** [int] arithmetic. *)
Definition int_add (x y : Z) : Z := wrap_signed INT_BITS (x + y).
Definition int_mul (x y : Z) : Z := wrap_signed INT_BITS (x * y).
Definition int_div (x y : Z) : Z := wrap_signed INT_BITS (x ÷ y).

(** [long] arithmetic. *)
Definition long_add (x y : Z) : Z := wrap_signed LONG_BITS (x + y).
Definition long_sub (x y : Z) : Z := wrap_signed LONG_BITS (x - y).
Definition long_mul (x y : Z) : Z := wrap_signed LONG_BITS (x * y).

(** Usual arithmetic conversions between [long] and [size_t]: the [long]
    operand is converted to [size_t], the operation is unsigned. *)
Definition size_t_of_long (x : Z) : Z := wrap_unsigned LONG_BITS x.
Definition long_of_size_t (x : Z) : Z := wrap_signed LONG_BITS x.
Definition size_t_sub (x y : Z) : Z := wrap_unsigned LONG_BITS (x - y).
Definition size_t_div (x y : Z) : Z := x / y.

(** The width of [double8192_t]. *)
Definition WIDE_BITS : Z := 8192.

(** Conversion of a [double8192_t] value to [long]. *)
Definition long_of_wide (x : Z) : Z := wrap_signed LONG_BITS x.

(** Conversion of an integer in the range of [long] to [double], rounded
    to nearest as the hardware does. *)
Definition double_of_long (v : Z) : float :=
  if v =? - 2 ^ 63 then (-9223372036854775808)%float
  else if v <? 0 then PrimFloat.opp (PrimFloat.of_uint63 (Uint63.of_Z (- v)))
  else PrimFloat.of_uint63 (Uint63.of_Z v).

(** The cells a pointer to [double] gives access to. *)
Definition array : Type := Z -> float.

(** The view of a caller's array [l]: its elements, then whatever the
    memory after it holds ([beyond]). *)
Definition array_of (l : list float) (beyond : Z -> float) : array :=
  fun i =>
    if (0 <=? i) && (i <? Z.of_nat (length l))
    then nth (Z.to_nat i) l 0%float
    else beyond i.

(** A buffer being filled: [None] is a cell that was never written. *)
Definition buffer : Type := Z -> option float.

Definition uninitialised : buffer := fun _ => None.

(** The write of cell [i].  Code writes a declared array through a store
    that checks the index against the declared size
    ([binomial_distribution.store_result]). *)
Definition store (b : buffer) (i : Z) (v : float) : buffer :=
  fun j => if j =? i then Some v else b j.

(** [for (long l = 0; l < bound; l++) s = body(l, s);] for a body that
    assigns neither [l] nor the bound. *)
Fixpoint for_from {S : Type} (rounds : nat) (l : Z) (body : Z -> S -> S) (s : S) : S :=
  match rounds with
  | O => s
  | Datatypes.S rounds' => for_from rounds' (l + 1) body (body l s)
  end.

Definition for_long {S : Type} (bound : Z) (body : Z -> S -> S) (s : S) : S :=
  for_from (Z.to_nat bound) 0 body s.

End Data.

(** ** Failure results *)

Module Outcome.

(** The error kinds the spec's error handling design names.  The source
    has no failure of its own: a failure enters through [factorial] only. *)
Inductive error : Type :=
| DivisionByZero
| Overflow
| InvalidRange
| EmptySample
| NonConvergence.

(** What a call comes to: a value, a failure, or undefined behaviour,
    about which nothing more is said. *)
Inductive outcome (A : Type) : Type :=
| Returns (v : A)
| Fails (e : error)
| Undefined.

Arguments Returns {A} v.
Arguments Fails {A} e.
Arguments Undefined {A}.

Definition ret {A : Type} (v : A) : outcome A := Returns v.

Definition bind {A B : Type} (c : outcome A) (k : A -> outcome B) : outcome B :=
  match c with
  | Returns v => k v
  | Fails e => Fails e
  | Undefined => Undefined
  end.

End Outcome.

Import Data Outcome.

Declare Scope outcome_scope.
Delimit Scope outcome_scope with outcome.
Notation "x <- c ;; k" := (bind c (fun x => k))
  (at level 61, c at next level, right associativity) : outcome_scope.
#[local] Open Scope outcome_scope.

(** ** [Firmware/Mathematics/number_theory.cpp] *)

Module number_theory.

(** [double gauss_sum (int n)]: the expression [(n*(n+1))/2] is evaluated
    in [int]; its value initialises the [double] that is returned. *)
Definition gauss_sum (n : Z) : float :=
  let result := double_of_long (int_div (int_mul n (int_add n 1)) 2) in
  result.

(** The product [1 * 2 * ... * k]. *)
Fixpoint product_to (k : nat) : Z :=
  match k with
  | O => 1
  | S k' => product_to k' * Z.of_nat k
  end.

(** Modelled from the spec: [factorial] is called by [combination] and
    [permutation] and is defined in no source file.  Following the spec it
    is defined for [n >= 0], with [factorial(0) = 1] and
    [factorial(n) = n * factorial(n-1)], computed as a repeated product; a
    negative [n] is an [InvalidRange] failure, and a result whose magnitude
    exceeds the declared width of the result type, here the 8192 bits of
    [double8192_t], is an [Overflow] failure. *)
Definition factorial (n : Z) : outcome Z :=
  if n <? 0 then Fails InvalidRange
  else
    let f := product_to (Z.to_nat n) in
    if f <? 2 ^ WIDE_BITS then Returns f else Fails Overflow.

(** [double8192_t combination (double8192_t n, double8192_t r)].  The
    product and the quotient are reached only with the three factorials
    returned, and then stay within the width ([combination_stays_in_width]). *)
Definition combination (n r : Z) : outcome Z :=
  n_factorial <- factorial n ;;
  n_r_factorial <- factorial (n - r) ;;
  r_factorial <- factorial r ;;
  let ncr := n_factorial ÷ (n_r_factorial * r_factorial) in
  ret ncr.

(** [double8192_t permutation (double8192_t n, double8192_t r)]; the
    source declares [npr] with the type name [double8129_t]. *)
Definition permutation (n r : Z) : outcome Z :=
  n_factorial <- factorial n ;;
  n_r_factorial <- factorial (n - r) ;;
  let npr := n_factorial ÷ n_r_factorial in
  ret npr.

(** The locals [q], [r] and the parameter [b], which the loop assigns. *)
Record division_locals : Type := mk_division_locals
  { dl_q : float; dl_r : float; dl_b : float }.

Definition divisibility_step (a : float) (s : division_locals) : division_locals :=
  let q := (a / dl_b s)%float in
  let r := (a - q)%float in
  let b := q in
  mk_division_locals q r b.

Definition divisibility_loop (a b : float) (interations : Z) : division_locals :=
  for_long interations (fun _ => divisibility_step a)
    (mk_division_locals 0%float 0%float b).

(** [double* divisibility_theorem (double a, double b, long interations)]:
    the pair [{q, r}] it builds is the result. *)
Definition divisibility_theorem (a b : float) (interations : Z) : outcome (float * float) :=
  let s := divisibility_loop a b interations in
  ret (dl_q s, dl_r s).

End number_theory.

(** ** [Firmware/Mathematics/distributions.cpp] *)

Module binomial_distribution.

(** [sizeof(set)] for the parameter [double set[]]. *)
Definition sizeof_set : Z := sizeof_pointer.

(** [for (long l = 0; l < bound; l++)] with a [size_t] bound: [l] is
    converted to [size_t] for the comparison, so the loop makes [bound]
    rounds. *)
Definition for_size_t {S : Type} (bound : Z) (body : Z -> S -> S) (s : S) : S :=
  for_from (Z.to_nat bound) 0 body s.

(** [for (long l = 0; l < sizeof(set); l++) if (set[l] == value_to_search_for) count++;]
    as both [pmf] and [mean] have it. *)
Definition count_loop (set : array) (value_to_search_for : float) (count : Z) : Z :=
  for_size_t sizeof_set
    (fun l count => if (set l =? value_to_search_for)%float then long_add count 1 else count)
    count.

(** [count/sizeof(set)]: [count] is converted to [size_t], the division is
    unsigned. *)
Definition count_over_sizeof (count : Z) : Z :=
  size_t_div (size_t_of_long count) sizeof_set.

(** [sizeof(set) - iteration], a [size_t]. *)
Definition sizeof_minus (iteration : Z) : Z :=
  size_t_sub sizeof_set (size_t_of_long iteration).

(** The locals of [pmf]. *)
Record pmf_locals : Type := mk_pmf_locals
  { count : Z; ncr : Z; p : Z; q : Z; iteration : Z; result : buffer }.

(** [result[index] = v;] for [double result[sizeof(set)]]: the array has
    [sizeof(set)] cells, a store at any other index is undefined
    behaviour. *)
Definition store_result (cells : buffer) (index : Z) (v : float) : outcome buffer :=
  if (0 <=? index) && (index <? sizeof_set)
  then ret (store cells index v)
  else Undefined.

(** [long count = 0, ncr = 1, p = 1, q = 0, iteration = 0;
    double result[sizeof(set)];] *)
Definition pmf_entry : pmf_locals :=
  mk_pmf_locals 0 1 1 0 0 uninitialised.

(** The branch [if (iteration == 0)]. *)
Definition pmf_first (s : pmf_locals) : outcome pmf_locals :=
  let q := long_sub 1 (p s) in
  let q := for_size_t (sizeof_minus (iteration s)) (fun _ q => long_mul q q) q in
  cells <- store_result (result s) (iteration s)
             (double_of_long (long_mul (long_mul 1 (p s)) q)) ;;
  ret (mk_pmf_locals (count s) (ncr s) (p s) q (iteration s) cells).

(** The branch [else if (iteration > 0)], up to [q = 1 - p;]. *)
Definition pmf_estimate (set : array) (value_to_search_for : float)
    (s : pmf_locals) : pmf_locals :=
  let count := count_loop set value_to_search_for (count s) in
  let p := long_of_size_t (count_over_sizeof count) in
  let q := long_sub 1 p in
  mk_pmf_locals count (ncr s) p q (iteration s) (result s).

(** The rest of that branch: the two power loops, [ncr] and the store. *)
Definition pmf_term (number_of_iteraions : Z) (s : pmf_locals) : outcome pmf_locals :=
  let p := for_long (iteration s) (fun _ p => long_mul p p) (p s) in
  let q := for_size_t (sizeof_minus (iteration s)) (fun _ q => long_mul q q) (q s) in
  c <- number_theory.combination number_of_iteraions (iteration s) ;;
  let ncr := long_of_wide c in
  cells <- store_result (result s) (iteration s)
             (double_of_long (long_mul (long_mul ncr p) q)) ;;
  ret (mk_pmf_locals (count s) ncr p q (iteration s) cells).

(** The body of the [do ... while] loop. *)
Definition pmf_body (set : array) (value_to_search_for : float)
    (number_of_iteraions : Z) (s : pmf_locals) : outcome pmf_locals :=
  s' <- (if iteration s =? 0 then pmf_first s
         else if iteration s >? 0
              then pmf_term number_of_iteraions (pmf_estimate set value_to_search_for s)
              else ret s) ;;
  ret (mk_pmf_locals (count s') (ncr s') (p s') (q s')
         (long_add (iteration s') 1) (result s')).

(** [do body while (iteration < number_of_iteraions);] making at most
    [fuel + 1] rounds. *)
Fixpoint pmf_do_while (fuel : nat) (set : array) (value_to_search_for : float)
    (number_of_iteraions : Z) (s : pmf_locals) : outcome pmf_locals :=
  s' <- pmf_body set value_to_search_for number_of_iteraions s ;;
  if iteration s' <? number_of_iteraions then
    match fuel with
    | O => ret s'
    | S fuel' => pmf_do_while fuel' set value_to_search_for number_of_iteraions s'
    end
  else ret s'.

(** [double* pmf (double set[], double value_to_search_for, long number_of_iteraions)]:
    the result is the array [result] points to.  [iteration] counts up
    from 0, so [number_of_iteraions] rounds of fuel are never used up
    ([pmf_locals_at_exit]). *)
Definition pmf_locals_at_return (set : array) (value_to_search_for : float)
    (number_of_iteraions : Z) : outcome pmf_locals :=
  pmf_do_while (Z.to_nat number_of_iteraions) set value_to_search_for
    number_of_iteraions pmf_entry.

Definition pmf (set : array) (value_to_search_for : float)
    (number_of_iteraions : Z) : outcome buffer :=
  s <- pmf_locals_at_return set value_to_search_for number_of_iteraions ;;
  ret (result s).

(** Conversion of a [size_t] to [double]. *)
Definition double_of_size_t (v : Z) : float :=
  if v <? 2 ^ 63 then PrimFloat.of_uint63 (Uint63.of_Z v)
  else (PrimFloat.of_uint63 (Uint63.of_Z (Z.lor (v / 2) (v mod 2))) * 2)%float.

(** The locals of [mean]: [long count = 0; double p = 0, mean = 0;]. *)
Record mean_locals : Type := mk_mean_locals
  { m_count : Z; m_p : float; m_mean : float }.

Definition mean_locals_at_return (set : array) (value_to_search_for : float)
    (n : Z) : mean_locals :=
  let count := 0 in
  let p := 0%float in
  let mean := 0%float in
  let count := count_loop set value_to_search_for count in
  let p := double_of_size_t (count_over_sizeof count) in
  mk_mean_locals count p mean.

(** [double mean (double set[], double value_to_search_for, long n)] *)
Definition mean (set : array) (value_to_search_for : float) (n : Z) : float :=
  m_mean (mean_locals_at_return set value_to_search_for n).

End binomial_distribution.

Import number_theory binomial_distribution.

(** ** Reference definitions *)

(** Following the spec's words: the direct summation [0+1+...+n]. *)
Fixpoint sum_to (k : nat) : Z :=
  match k with
  | O => 0
  | S k' => sum_to k' + Z.of_nat k
  end.

Definition direct_summation (n : Z) : Z := sum_to (Z.to_nat n).

(** By a direct count: the number of cells equal to the target among the
    [sizeof(set)] cells that are examined. *)
Definition matches (set : array) (value_to_search_for : float) : Z :=
  Z.of_nat (length (filter (fun l => (set l =? value_to_search_for)%float)
                      (map Z.of_nat (seq 0 (Z.to_nat sizeof_set))))).

(** The spec's example: samples [[1,0,1,1,0]], followed in memory by
    [beyond]. *)
Definition example_samples (beyond : Z -> float) : array :=
  array_of [1; 0; 1; 1; 0]%float beyond.

(** Eight samples of which four equal the target 1. *)
Definition half_matching : array :=
  array_of [1; 1; 1; 1; 0; 0; 0; 0]%float (fun _ => 0%float).

(** The quotient in what [divisibility_theorem] returns. *)
Definition quotient_of (o : outcome (float * float)) : float :=
  match o with
  | Returns (q, _) => q
  | _ => 0%float
  end.

(** Pascal's triangle: the number of [r]-subsets of an [n]-set. *)
Fixpoint binomial (n r : nat) : Z :=
  match n, r with
  | _, O => 1
  | O, S _ => 0
  | S n', S r' => binomial n' r' + binomial n' (S r')
  end.

(** ** Machine arithmetic *)

(** Two closed [double] values that a comparison tells apart are different. *)
Ltac float_neq :=
  let H := fresh in
  intro H;
  first
    [ match type of H with
      | ?x = ?y => apply (f_equal (fun z => PrimFloat.eqb z y)) in H
      end; vm_compute in H; discriminate H
    | match type of H with
      | ?x = ?y => apply (f_equal (fun z => PrimFloat.eqb z x)) in H
      end; vm_compute in H; discriminate H ].

Lemma wrap_signed_int z : in_int z -> wrap_signed INT_BITS z = z.
Proof.
  unfold in_int, wrap_signed, INT_BITS. intros H.
  change (2 ^ (32 - 1)) with 2147483648. change (2 ^ 32) with 4294967296.
  change (2 ^ 31) with 2147483648 in H.
  rewrite Z.mod_small; lia.
Qed.

Lemma wrap_signed_long z : in_long z -> wrap_signed LONG_BITS z = z.
Proof.
  unfold in_long, wrap_signed, LONG_BITS. intros H.
  change (2 ^ (64 - 1)) with 9223372036854775808.
  change (2 ^ 64) with 18446744073709551616.
  change (2 ^ 63) with 9223372036854775808 in H.
  rewrite Z.mod_small; lia.
Qed.

Lemma for_from_last {S : Type} (body : Z -> S -> S) rounds :
  forall l s,
    for_from (Datatypes.S rounds) l body s
    = body (l + Z.of_nat rounds) (for_from rounds l body s).
Proof.
  induction rounds as [|k IH]; intros l s.
  - simpl. now rewrite Z.add_0_r.
  - change (for_from (Datatypes.S (Datatypes.S k)) l body s)
      with (for_from (Datatypes.S k) (l + 1) body (body l s)).
    rewrite IH. simpl for_from. f_equal. lia.
Qed.

(** ** [gauss_sum] *)

Lemma sum_to_closed k : 2 * sum_to k = Z.of_nat k * (Z.of_nat k + 1).
Proof.
  induction k as [|k IH].
  - reflexivity.
  - change (sum_to (S k)) with (sum_to k + Z.of_nat (S k)). lia.
Qed.

Lemma direct_summation_closed n : 0 <= n -> direct_summation n = n * (n + 1) / 2.
Proof.
  intros Hn. unfold direct_summation.
  pose proof (sum_to_closed (Z.to_nat n)) as H.
  rewrite Z2Nat.id in H by assumption.
  rewrite <- H, Z.mul_comm. symmetry. apply Z.div_mul. lia.
Qed.

Lemma gauss_sum_exact n :
  0 <= n <= 46340 ->
  int_div (int_mul n (int_add n 1)) 2 = n * (n + 1) / 2.
Proof.
  intros Hn. unfold int_div, int_mul, int_add.
  rewrite (wrap_signed_int (n + 1)) by (unfold in_int; lia).
  assert (Hp : 0 <= n * (n + 1) <= 2147441940) by nia.
  rewrite (wrap_signed_int (n * (n + 1))) by (unfold in_int; lia).
  rewrite Z.quot_div_nonneg by lia.
  apply wrap_signed_int. unfold in_int.
  assert (0 <= n * (n + 1) / 2 <= 2147441940).
  { split; [apply Z.div_pos; lia | apply Z.div_le_upper_bound; lia]. }
  lia.
Qed.

(** C5, as amended: for every [n] with [0 <= n <= 46340], which is where
    [n*(n+1)] fits the 32-bit [int] it is computed in, [gauss_sum n] is the
    [double] of [n*(n+1)/2], and that number is the direct summation
    [0+1+...+n]; [gauss_sum 5] is 15. *)
Theorem gauss_sum_closed_form :
  forall n : Z,
    0 <= n <= 46340 ->
    gauss_sum n = double_of_long (n * (n + 1) / 2)
    /\ n * (n + 1) / 2 = direct_summation n
    /\ gauss_sum 5 = 15%float.
Proof.
  intros n Hn. split; [|split].
  - unfold gauss_sum. now rewrite gauss_sum_exact.
  - symmetry. apply direct_summation_closed. lia.
  - reflexivity.
Qed.

Lemma gauss_sum_closed_form_witness :
  0 <= 100 <= 46340
  /\ gauss_sum 100 = double_of_long (100 * (100 + 1) / 2)
  /\ 100 * (100 + 1) / 2 = direct_summation 100.
Proof.
  split; [lia|].
  split; [apply (gauss_sum_closed_form 100); lia
         | apply (gauss_sum_closed_form 100); lia].
Defined.

(** C5 as stated fails at [n = 46341], a non-negative [int]: [n*(n+1)]
    exceeds [INT_MAX] and wraps, and [gauss_sum] returns [-1073716337]
    where [n*(n+1)/2] and the direct summation are [1073767311]. *)
Lemma gauss_sum_overflow :
  0 <= 46341 /\ in_int 46341
  /\ gauss_sum 46341 = (-1073716337)%float
  /\ 46341 * (46341 + 1) / 2 = 1073767311
  /\ direct_summation 46341 = 1073767311
  /\ gauss_sum 46341 <> double_of_long (46341 * (46341 + 1) / 2).
Proof.
  split; [lia|]. split; [unfold in_int; lia|].
  split; [vm_compute; reflexivity|].
  split; [reflexivity|].
  split; [rewrite direct_summation_closed by lia; reflexivity|].
  float_neq.
Qed.

(** ** [combination] and [permutation] *)

Lemma product_to_pos k : 0 < product_to k.
Proof.
  induction k as [|k IH].
  - reflexivity.
  - change (product_to (S k)) with (product_to k * Z.of_nat (S k)). nia.
Qed.

Lemma product_to_mono a b : (a <= b)%nat -> product_to a <= product_to b.
Proof.
  induction 1 as [|b Hab IH].
  - lia.
  - change (product_to (S b)) with (product_to b * Z.of_nat (S b)).
    pose proof (product_to_pos b). nia.
Qed.

(** [966!] is the last factorial below [2 ^ 8192]. *)
Lemma product_to_966 : product_to 966 < 2 ^ WIDE_BITS <= product_to 967.
Proof. split; [vm_compute; reflexivity | vm_compute; discriminate]. Qed.

Lemma product_to_fits k : (k <= 966)%nat -> product_to k < 2 ^ WIDE_BITS.
Proof.
  intros H. pose proof (product_to_mono k 966 H). pose proof product_to_966. lia.
Qed.

Lemma factorial_returns n :
  0 <= n <= 966 -> factorial n = Returns (product_to (Z.to_nat n)).
Proof.
  intros Hn. unfold factorial.
  destruct (Z.ltb_spec n 0); [lia|]. cbv zeta.
  pose proof (product_to_fits (Z.to_nat n) ltac:(lia)).
  destruct (Z.ltb_spec (product_to (Z.to_nat n)) (2 ^ WIDE_BITS)); [reflexivity | lia].
Qed.

Lemma factorial_fails n : n < 0 -> factorial n = Fails InvalidRange.
Proof.
  intros Hn. unfold factorial.
  destruct (Z.ltb_spec n 0); [reflexivity | lia].
Qed.

Lemma factorial_overflows n : 967 <= n -> factorial n = Fails Overflow.
Proof.
  intros Hn. unfold factorial.
  destruct (Z.ltb_spec n 0); [lia|]. cbv zeta.
  pose proof (product_to_mono 967 (Z.to_nat n) ltac:(lia)).
  pose proof product_to_966.
  destruct (Z.ltb_spec (product_to (Z.to_nat n)) (2 ^ WIDE_BITS)); [lia | reflexivity].
Qed.

(** The recurrence the spec gives for [factorial]. *)
Lemma factorial_recurrence n :
  0 < n <= 966 ->
  exists f, factorial (n - 1) = Returns f /\ factorial n = Returns (n * f).
Proof.
  intros Hn. exists (product_to (Z.to_nat (n - 1))). split.
  - apply factorial_returns. lia.
  - rewrite factorial_returns by lia.
    replace (Z.to_nat n) with (S (Z.to_nat (n - 1))) by lia.
    change (product_to (S (Z.to_nat (n - 1))))
      with (product_to (Z.to_nat (n - 1)) * Z.of_nat (S (Z.to_nat (n - 1)))).
    rewrite Z.mul_comm. do 2 f_equal. lia.
Qed.

Lemma combination_returns n r :
  0 <= r <= n -> n <= 966 ->
  combination n r
  = Returns (product_to (Z.to_nat n)
             ÷ (product_to (Z.to_nat (n - r)) * product_to (Z.to_nat r))).
Proof.
  intros H Hn. unfold combination.
  rewrite (factorial_returns n), (factorial_returns (n - r)), (factorial_returns r) by lia.
  reflexivity.
Qed.

Lemma permutation_returns n r :
  0 <= n <= 966 -> 0 <= n - r <= 966 ->
  permutation n r
  = Returns (product_to (Z.to_nat n) ÷ product_to (Z.to_nat (n - r))).
Proof.
  intros Hn Hr. unfold permutation.
  rewrite (factorial_returns n), (factorial_returns (n - r)) by lia.
  reflexivity.
Qed.

Example combination_5_2 : combination 5 2 = Returns 10.
Proof. reflexivity. Qed.

Example permutation_5_2 : permutation 5 2 = Returns 20.
Proof. reflexivity. Qed.

(** C4, as amended: for [0 <= r <= n <= 966], which is where [n!] fits the
    8192 bits of the result type, [combination n r] returns a value and
    agrees with [combination n (n - r)], and [combination n 0] and
    [combination n n] return 1. *)
Theorem combination_symmetric :
  forall n r : Z,
    0 <= r <= n -> n <= 966 ->
    combination n r = combination n (n - r)
    /\ (exists c : Z, combination n r = Returns c)
    /\ combination n 0 = Returns 1
    /\ combination n n = Returns 1.
Proof.
  intros n r H Hn.
  pose proof (product_to_pos (Z.to_nat n)) as Hpos.
  split; [|split; [|split]].
  - rewrite (combination_returns n r), (combination_returns n (n - r)) by lia.
    replace (n - (n - r)) with r by lia.
    now rewrite Z.mul_comm.
  - rewrite combination_returns by lia. eexists. reflexivity.
  - rewrite combination_returns by lia.
    rewrite Z.sub_0_r. change (product_to (Z.to_nat 0)) with 1.
    rewrite Z.mul_1_r, Z.quot_same by lia. reflexivity.
  - rewrite combination_returns by lia.
    rewrite Z.sub_diag. change (product_to (Z.to_nat 0)) with 1.
    rewrite Z.mul_1_l, Z.quot_same by lia. reflexivity.
Qed.

Lemma combination_symmetric_witness :
  0 <= 2 <= 5 /\ 5 <= 966
  /\ combination 5 2 = combination 5 (5 - 2)
  /\ (exists c : Z, combination 5 2 = Returns c)
  /\ combination 5 0 = Returns 1
  /\ combination 5 5 = Returns 1.
Proof.
  split; [lia|]. split; [lia | apply (combination_symmetric 5 2); lia].
Defined.

(** C4 as stated fails at [(n, r) = (967, 0)]: [0 <= 0 <= 967], but [967!]
    does not fit 8192 bits, the first [factorial] call fails, and
    [combination 967 0] fails with it instead of returning 1. *)
Lemma combination_overflow :
  0 <= 0 <= 967
  /\ factorial 967 = Fails Overflow
  /\ combination 967 0 = Fails Overflow
  /\ combination 967 0 <> Returns 1.
Proof.
  split; [lia|].
  split; [apply factorial_overflows; lia|].
  split; [|unfold combination; rewrite factorial_overflows by lia; discriminate].
  unfold combination. now rewrite factorial_overflows by lia.
Qed.




(** ** [divisibility_theorem] *)

Lemma divisibility_loop_none a b interations :
  interations <= 0 ->
  divisibility_loop a b interations = mk_division_locals 0%float 0%float b.
Proof.
  intros H. unfold divisibility_loop, for_long.
  replace (Z.to_nat interations) with O by lia. reflexivity.
Qed.

(** What the last round leaves: [q] is [a] over the previous [b], [r] is
    [a - q], and [b] is [q]. *)
Lemma divisibility_loop_last a b interations :
  1 <= interations ->
  divisibility_loop a b interations
  = divisibility_step a (divisibility_loop a b (interations - 1)).
Proof.
  intros H. unfold divisibility_loop, for_long.
  replace (Z.to_nat interations) with (S (Z.to_nat (interations - 1))) by lia.
  now rewrite for_from_last.
Qed.

(** C2, evaluated at the spec's example: ten rounds on [(17, 5)] end in
    [(5, 12)], not in the Euclidean [(3, 2)]; the returned pair does not
    satisfy [a = q*b + r]. *)
Theorem divisibility_theorem_17_5_10 :
  divisibility_theorem 17 5 10 = Returns (5%float, 12%float)
  /\ divisibility_theorem 17 5 10 <> Returns (3%float, 2%float)
  /\ (5 * 5 + 12)%float <> 17%float.
Proof.
  split; [vm_compute; reflexivity|]. split.
  - intros H.
    apply (f_equal (fun o => match o with
                             | Returns (q, _) => (q =? 3)%float
                             | _ => false
                             end)) in H.
    vm_compute in H. discriminate H.
  - float_neq.
Qed.

(** C6, as amended: [divisibility_theorem] has no failing path.  For every
    [a], [b] and [interations] it returns a pair [(q, r)]: the pair is
    [(0, 0)] when [interations <= 0]; otherwise [r] is [a - q], and after
    exactly one round [q] is the IEEE quotient [a / b], whatever [b] is,
    zero included. *)
Theorem divisibility_theorem_always_returns :
  forall (a b : float) (interations : Z),
  exists q r : float,
    divisibility_theorem a b interations = Returns (q, r)
    /\ (interations <= 0 -> q = 0%float /\ r = 0%float)
    /\ (1 <= interations -> r = (a - q)%float)
    /\ (interations = 1 -> q = (a / b)%float).
Proof.
  intros a b n. unfold divisibility_theorem.
  exists (dl_q (divisibility_loop a b n)), (dl_r (divisibility_loop a b n)).
  split; [reflexivity|]. split; [|split].
  - intros H. now rewrite divisibility_loop_none.
  - intros H. now rewrite divisibility_loop_last.
  - intros ->. reflexivity.
Qed.

Lemma divisibility_theorem_always_returns_witness :
  exists q r : float,
    divisibility_theorem 17 0 1 = Returns (q, r)
    /\ r = (17 - q)%float /\ q = (17 / 0)%float.
Proof.
  destruct (divisibility_theorem_always_returns 17 0 1) as (q & r & E & _ & Hr & Hq).
  exists q, r. split; [exact E|].
  split; [apply Hr; lia | apply Hq; reflexivity].
Defined.

(** C6 as stated fails at [(a, b, interations) = (17, 0, 1)], where
    [17 / 0] is [+infinity] and the call returns, and at [(17, 5, 0)], where
    no round is made and [(0, 0)], which does not satisfy [a = q*b + r], is
    returned. *)
Lemma divisibility_theorem_zero_divisor_returns :
  divisibility_theorem 17 0 1 = Returns (infinity, neg_infinity)
  /\ divisibility_theorem 17 0 1 <> Fails DivisionByZero
  /\ divisibility_theorem 17 5 0 = Returns (0%float, 0%float)
  /\ (0 * 5 + 0)%float <> 17%float
  /\ divisibility_theorem 17 5 0 <> Fails NonConvergence.
Proof.
  split; [vm_compute; reflexivity|].
  split; [discriminate|].
  split; [vm_compute; reflexivity|].
  split; [float_neq | discriminate].
Qed.

(** ** The counting loop *)

Lemma count_from set v k :
  forall a c,
    0 <= c -> c + Z.of_nat k < 2 ^ 63 ->
    for_from k (Z.of_nat a)
      (fun l count => if (set l =? v)%float then long_add count 1 else count) c
    = c + Z.of_nat (length (filter (fun l => (set l =? v)%float)
                              (map Z.of_nat (seq a k)))).
Proof.
  induction k as [|k IH]; intros a c Hc Hb.
  - simpl. lia.
  - cbn [for_from seq map filter].
    replace (Z.of_nat a + 1) with (Z.of_nat (S a)) by lia.
    destruct (set (Z.of_nat a) =? v)%float.
    + unfold long_add. rewrite wrap_signed_long by (unfold in_long; lia).
      rewrite IH by lia. cbn [length]. lia.
    + rewrite IH by lia. lia.
Qed.

Lemma matches_range set v : 0 <= matches set v <= sizeof_set.
Proof.
  unfold matches. split; [lia|].
  etransitivity; [apply Nat2Z.inj_le, filter_length_le|].
  rewrite length_map, length_seq. reflexivity.
Qed.

Lemma count_loop_matches set v c :
  0 <= c < 2 ^ 62 -> count_loop set v c = c + matches set v.
Proof.
  intros Hc. unfold count_loop, for_size_t, matches.
  apply (count_from set v (Z.to_nat sizeof_set) 0 c); [lia|].
  change (Z.of_nat (Z.to_nat sizeof_set)) with 8. lia.
Qed.

Lemma count_over_sizeof_small c :
  0 <= c < 2 ^ 63 -> count_over_sizeof c = c / sizeof_set.
Proof.
  intros Hc. unfold count_over_sizeof, size_t_div, size_t_of_long, wrap_unsigned, LONG_BITS.
  rewrite Z.mod_small; [reflexivity | lia].
Qed.

Lemma pmf_estimate_p set v s :
  0 <= count s < 2 ^ 62 ->
  p (pmf_estimate set v s) = (count s + matches set v) / sizeof_set.
Proof.
  intros Hc. pose proof (matches_range set v) as Hm.
  change sizeof_set with 8 in *.
  cbn [pmf_estimate p]. rewrite count_loop_matches by assumption.
  rewrite count_over_sizeof_small by lia.
  change sizeof_set with 8.
  unfold long_of_size_t. apply wrap_signed_long. unfold in_long.
  assert (0 <= (count s + matches set v) / 8 <= count s + matches set v).
  { split; [apply Z.div_pos; lia | apply Z.div_le_upper_bound; lia]. }
  lia.
Qed.

(** ** The rounds of [pmf] *)

(** The round that starts with [iteration = 0] reads neither the samples
    nor the target: it stores [1 * p * q = 1 * 1 * 0]. *)
Lemma pmf_body_entry set v n :
  pmf_body set v n pmf_entry
  = Returns (mk_pmf_locals 0 1 1 0 1 (store uninitialised 0 0%float)).
Proof. reflexivity. Qed.

(** A round that starts with [1 <= iteration < number_of_iteraions],
    inside the array. *)
Lemma pmf_body_later set v n s :
  n <= 966 -> 1 <= iteration s < n -> iteration s < sizeof_set ->
  exists s' x,
    pmf_body set v n s = Returns s'
    /\ iteration s' = iteration s + 1
    /\ count s' = count_loop set v (count s)
    /\ result s' = store (result s) (iteration s) x.
Proof.
  intros Hn Hk Hs. unfold pmf_body.
  destruct (Z.eqb_spec (iteration s) 0) as [E|_]; [lia|].
  destruct (Z.gtb_spec (iteration s) 0) as [_|E]; [|lia].
  unfold pmf_term, store_result. cbn [iteration count result pmf_estimate].
  rewrite combination_returns by lia. cbn [bind].
  destruct (Z.leb_spec 0 (iteration s)) as [_|E]; [|lia].
  destruct (Z.ltb_spec (iteration s) sizeof_set) as [_|E]; [|lia].
  cbn [andb bind ret iteration count result ncr p q].
  eexists. eexists. split; [reflexivity|].
  cbn [iteration count result]. split; [|split; reflexivity].
  unfold long_add. apply wrap_signed_long.
  unfold in_long. lia.
Qed.

(** A round that starts with [iteration] at or past [sizeof(set)]: its
    store is outside the array. *)
Lemma pmf_body_overrun set v n s :
  n <= 966 -> iteration s < n -> sizeof_set <= iteration s ->
  pmf_body set v n s = Undefined.
Proof.
  intros Hn Hk Hs. change sizeof_set with 8 in Hs. unfold pmf_body.
  destruct (Z.eqb_spec (iteration s) 0) as [E|_]; [lia|].
  destruct (Z.gtb_spec (iteration s) 0) as [_|E]; [|lia].
  unfold pmf_term, store_result. cbn [iteration count result pmf_estimate].
  rewrite combination_returns by lia. cbn [bind].
  destruct (Z.leb_spec 0 (iteration s)) as [_|E]; [|lia].
  destruct (Z.ltb_spec (iteration s) sizeof_set) as [E|_];
    [change sizeof_set with 8 in E; lia|].
  reflexivity.
Qed.

(** The loop, entered again after a round, for a trial count within the
    array: it makes the remaining rounds, leaves by its condition, writes
    the cells from [iteration] up to [number_of_iteraions - 1] and no
    other. *)
Lemma pmf_do_while_later set v n :
  n <= sizeof_set ->
  forall fuel s,
    1 <= iteration s < n ->
    n - iteration s - 1 <= Z.of_nat fuel ->
    exists s',
      pmf_do_while fuel set v n s = Returns s'
      /\ iteration s' = n
      /\ (forall j, j < iteration s \/ n <= j -> result s' j = result s j)
      /\ (forall j, iteration s <= j < n -> result s' j <> None).
Proof.
  intros Hn. change sizeof_set with 8 in Hn.
  assert (Hb : forall s, 1 <= iteration s < n ->
            n <= 966 /\ 1 <= iteration s < n /\ iteration s < sizeof_set)
    by (intros; change sizeof_set with 8; lia).
  induction fuel as [|fuel IH]; intros s Hk Hf.
  - destruct (Hb s Hk) as (H1 & H2 & H3).
    destruct (pmf_body_later set v n s H1 H2 H3) as (s1 & x & E & Hi & _ & Hr).
    cbn [pmf_do_while]. rewrite E. cbn [bind].
    destruct (Z.ltb_spec (iteration s1) n) as [Hlt|Hge]; [lia|].
    exists s1. split; [reflexivity|]. split; [lia|]. split.
    + intros j Hj. rewrite Hr. unfold store.
      destruct (Z.eqb_spec j (iteration s)); [lia | reflexivity].
    + intros j Hj. rewrite Hr. unfold store.
      destruct (Z.eqb_spec j (iteration s)); [discriminate | lia].
  - destruct (Hb s Hk) as (H1 & H2 & H3).
    destruct (pmf_body_later set v n s H1 H2 H3) as (s1 & x & E & Hi & _ & Hr).
    cbn [pmf_do_while]. rewrite E. cbn [bind].
    destruct (Z.ltb_spec (iteration s1) n) as [Hlt|Hge].
    + destruct (IH s1) as (s' & E' & Hi' & Hout & Hin); [lia | lia |].
      exists s'. split; [exact E'|]. split; [exact Hi'|]. split.
      * intros j Hj. rewrite Hout by lia. rewrite Hr. unfold store.
        destruct (Z.eqb_spec j (iteration s)); [lia | reflexivity].
      * intros j Hj. destruct (Z.eq_dec j (iteration s)) as [->|Hne].
        -- rewrite Hout by lia. rewrite Hr. unfold store.
           rewrite Z.eqb_refl. discriminate.
        -- apply Hin. lia.
    + exists s1. split; [reflexivity|]. split; [lia|]. split.
      * intros j Hj. rewrite Hr. unfold store.
        destruct (Z.eqb_spec j (iteration s)); [lia | reflexivity].
      * intros j Hj. rewrite Hr. unfold store.
        destruct (Z.eqb_spec j (iteration s)); [discriminate | lia].
Qed.

(** The loop, entered again after a round, for a trial count past the
    array whose factorial fits the width: it makes the rounds up to
    [iteration = sizeof(set)], whose store is outside the array. *)
Lemma pmf_do_while_overrun set v n :
  sizeof_set < n <= 966 ->
  forall fuel s,
    1 <= iteration s <= sizeof_set ->
    n - iteration s - 1 <= Z.of_nat fuel ->
    pmf_do_while fuel set v n s = Undefined.
Proof.
  intros Hn. change sizeof_set with 8 in *.
  induction fuel as [|fuel IH]; intros s Hk Hf;
    destruct (Z.eq_dec (iteration s) 8) as [E8|N8].
  - cbn [pmf_do_while]. rewrite pmf_body_overrun; [reflexivity | lia | lia |].
    change sizeof_set with 8. lia.
  - lia.
  - cbn [pmf_do_while]. rewrite pmf_body_overrun; [reflexivity | lia | lia |].
    change sizeof_set with 8. lia.
  - destruct (pmf_body_later set v n s) as (s1 & x & E & Hi & _ & _);
      [lia | lia | change sizeof_set with 8; lia |].
    cbn [pmf_do_while]. rewrite E. cbn [bind].
    destruct (Z.ltb_spec (iteration s1) n) as [Hlt|Hge]; [|lia].
    apply IH; lia.
Qed.

(** [pmf] returns for every trial count up to [sizeof(set)]: the loop
    leaves by its condition with [iteration = max 1 number_of_iteraions],
    cell 0 of the array holds 0, the cells below [iteration] are written
    and no other is. *)
Lemma pmf_locals_at_exit set v n :
  n <= sizeof_set ->
  exists s,
    pmf_locals_at_return set v n = Returns s
    /\ iteration s = Z.max 1 n
    /\ result s 0 = Some 0%float
    /\ (forall j, 0 <= j < Z.max 1 n -> result s j <> None)
    /\ (forall j, j < 0 \/ Z.max 1 n <= j -> result s j = None).
Proof.
  intros Hn. unfold pmf_locals_at_return.
  destruct (Z.to_nat n) as [|fuel] eqn:Ef.
  - cbn [pmf_do_while]. rewrite pmf_body_entry. cbn [bind iteration].
    destruct (Z.ltb_spec 1 n) as [Hlt|Hge]; [lia|].
    eexists. split; [reflexivity|]. cbn [iteration result].
    split; [lia|]. split; [reflexivity|]. split.
    + intros j Hj. replace j with 0 by lia. discriminate.
    + intros j Hj. unfold store.
      destruct (Z.eqb_spec j 0); [lia | reflexivity].
  - cbn [pmf_do_while]. rewrite pmf_body_entry. cbn [bind iteration].
    destruct (Z.ltb_spec 1 n) as [Hlt|Hge].
    + destruct (pmf_do_while_later set v n Hn fuel
                  (mk_pmf_locals 0 1 1 0 1 (store uninitialised 0 0%float)))
        as (s & E & Hi & Hout & Hin); cbn [iteration result] in *; [lia | lia |].
      exists s. split; [exact E|]. split; [lia|]. split; [|split].
      * rewrite Hout by lia. reflexivity.
      * intros j Hj. destruct (Z.eq_dec j 0) as [->|Hne].
        -- rewrite Hout by lia. discriminate.
        -- apply Hin. lia.
      * intros j Hj. rewrite Hout by lia. unfold store.
        destruct (Z.eqb_spec j 0); [lia | reflexivity].
    + eexists. split; [reflexivity|]. cbn [iteration result].
      split; [lia|]. split; [reflexivity|]. split.
      * intros j Hj. replace j with 0 by lia. discriminate.
      * intros j Hj. unfold store.
        destruct (Z.eqb_spec j 0); [lia | reflexivity].
Qed.

Lemma pmf_returns set v n :
  n <= sizeof_set ->
  exists res,
    pmf set v n = Returns res
    /\ res 0 = Some 0%float
    /\ (forall j, 0 <= j < Z.max 1 n -> res j <> None)
    /\ (forall j, j < 0 \/ Z.max 1 n <= j -> res j = None).
Proof.
  intros Hn. destruct (pmf_locals_at_exit set v n Hn) as (s & E & _ & H0 & Hin & Hout).
  exists (result s). unfold pmf. rewrite E. cbn [bind ret]. auto.
Qed.

(** Past the array, with a trial count whose factorial fits the width,
    [pmf] stores outside [result]. *)
Lemma pmf_overruns set v n :
  sizeof_set < n <= 966 -> pmf set v n = Undefined.
Proof.
  intros Hn. change sizeof_set with 8 in Hn.
  unfold pmf, pmf_locals_at_return.
  destruct (Z.to_nat n) as [|fuel] eqn:Ef; [lia|].
  cbn [pmf_do_while]. rewrite pmf_body_entry. cbn [bind iteration].
  destruct (Z.ltb_spec 1 n) as [_|Hge]; [|lia].
  rewrite (pmf_do_while_overrun set v n); [reflexivity | | | ];
    cbn [iteration]; change sizeof_set with 8; lia.
Qed.

(** C10, as amended: for every samples array and target, and every trial
    count up to [sizeof(set)], the number of cells of [result], [pmf]
    returns and cell 0 of the returned array is exactly 0.  The round with
    [iteration = 0] stores [1 * p * q] with the initial [p = 1] and
    [q = 1 - p = 0] ([pmf_body_entry]), and no later round writes cell 0. *)
Theorem pmf_first_entry_zero :
  forall (set : array) (value_to_search_for : float) (number_of_iteraions : Z),
    number_of_iteraions <= sizeof_set ->
    exists res : buffer,
      pmf set value_to_search_for number_of_iteraions = Returns res
      /\ res 0 = Some 0%float.
Proof.
  intros set v n Hn.
  destruct (pmf_returns set v n Hn) as (res & E & H0 & _).
  exists res. auto.
Qed.

Lemma pmf_first_entry_zero_witness :
  4 <= sizeof_set
  /\ exists res : buffer,
       pmf (example_samples (fun _ => 0%float)) 1 4 = Returns res
       /\ res 0 = Some 0%float.
Proof.
  split; [change sizeof_set with 8; lia|].
  apply (pmf_first_entry_zero (example_samples (fun _ => 0%float)) 1 4).
  change sizeof_set with 8; lia.
Defined.

(** C10 as stated fails at trial count 9, on the spec's samples and target:
    the round with [iteration = 8] stores into [result[8]], outside the 8
    cells of [result], so the call has undefined behaviour and returns no
    sequence whose first element could be 0. *)
Lemma pmf_overruns_at_9 :
  in_long 9
  /\ pmf (example_samples (fun _ => 0%float)) 1 9 = Undefined
  /\ ~ (exists res : buffer,
          pmf (example_samples (fun _ => 0%float)) 1 9 = Returns res
          /\ res 0 = Some 0%float).
Proof.
  assert (E : pmf (example_samples (fun _ => 0%float)) 1 9 = Undefined)
    by (vm_compute; reflexivity).
  split; [unfold in_long; lia|]. split; [exact E|].
  intros (res & E' & _). rewrite E in E'. discriminate E'.
Qed.

(** C1, evaluated at the spec's example: on samples [[1,0,1,1,0]], target 1
    and trial count 4, whatever follows the five samples in memory, [pmf]
    returns a buffer whose cell 0 is 0, not [0.4^4 = 0.0256], and whose
    cell 4 is never written, where the claim has [P(4) = 0.1296]. *)
Theorem pmf_on_spec_example :
  forall beyond : Z -> float,
  exists res : buffer,
    pmf (example_samples beyond) 1 4 = Returns res
    /\ res 0 = Some 0%float
    /\ res 4 = None
    /\ 0%float <> 0.0256%float.
Proof.
  intros beyond.
  destruct (pmf_returns (example_samples beyond) 1 4) as (res & E & H0 & _ & Hout).
  { change sizeof_set with 8; lia. }
  exists res. split; [exact E|]. split; [exact H0|].
  split; [apply Hout; lia | float_neq].
Qed.

(** With nothing equal to the target after the five samples, all four
    cells written are 0: the values do not sum to 1. *)
Example spec_example_cells_of_pmf :
  exists res : buffer,
    pmf (example_samples (fun _ => 0%float)) 1 4 = Returns res
    /\ map res [0; 1; 2; 3; 4]
       = [Some 0%float; Some 0%float; Some 0%float; Some 0%float; None].
Proof. eexists. split; [vm_compute; reflexivity | reflexivity]. Qed.

(** ** [mean] *)

Lemma mean_returns_zero set v n : mean set v n = 0%float.
Proof. reflexivity. Qed.

Lemma mean_p set v n :
  m_p (mean_locals_at_return set v n)
  = double_of_size_t (matches set v / sizeof_set).
Proof.
  pose proof (matches_range set v) as Hm. change sizeof_set with 8 in Hm.
  cbn [mean_locals_at_return m_p].
  rewrite count_loop_matches by lia.
  rewrite count_over_sizeof_small by lia. reflexivity.
Qed.

Lemma quotient_by_sizeof m :
  0 <= m <= sizeof_set ->
  (m < sizeof_set -> m / sizeof_set = 0)
  /\ (m = sizeof_set -> m / sizeof_set = 1).
Proof.
  change sizeof_set with 8. intros Hm. split.
  - intros H. apply Z.div_small. lia.
  - intros ->. reflexivity.
Qed.

(** C8: [mean] returns the constant 0 for every samples array, target and
    trial count, so any two calls agree; the [p] it computes, which can be
    0 or 1, is not part of the result. *)
Theorem mean_is_constant :
  forall (set : array) (value_to_search_for : float) (n : Z),
    mean set value_to_search_for n = 0%float
    /\ (forall (set' : array) (value' : float) (n' : Z),
          mean set' value' n' = mean set value_to_search_for n)
    /\ m_p (mean_locals_at_return (fun _ => 1%float) 1 n) = 1%float
    /\ mean (fun _ => 1%float) 1 n = 0%float.
Proof.
  intros set v n. split; [reflexivity|]. split; [reflexivity|].
  split; [|reflexivity].
  rewrite mean_p. vm_compute. reflexivity.
Qed.

(** C3, evaluated at the spec's example: on samples [[1,0,1,1,0]], target 1
    and trial count 4, whatever follows the samples in memory, [mean]
    returns 0 and not [4 * 0.6 = 2.4]. *)
Theorem mean_on_spec_example :
  forall beyond : Z -> float,
    mean (example_samples beyond) 1 4 = 0%float
    /\ 0%float <> 2.4%float.
Proof.
  intros beyond. split; [apply mean_returns_zero | float_neq].
Qed.

(** ** The estimate of [p] *)

(** C9, as amended: in [pmf] and in [mean] the length used is
    [sizeof(set)], the size of the pointer: the matches are counted over the
    first [sizeof(set)] cells, and [p] is the integer quotient of a count by
    [sizeof(set)], never a fraction such as 0.6.  In [mean], and in the
    first estimating round of [pmf] (the one that follows the round of
    [iteration = 0]), the count is the number [m] of matching cells, so [p]
    is 0 whenever [m] is below [sizeof(set)]; in [mean] it is 0 or 1.  In
    any round of [pmf], [p] is the quotient by [sizeof(set)] of the count
    the round starts with plus [m]. *)
Theorem p_is_quotient_by_pointer_size :
  forall (set : array) (value_to_search_for : float) (n : Z),
    let m := matches set value_to_search_for in
    let p_mean := m_p (mean_locals_at_return set value_to_search_for n) in
    let after_first := mk_pmf_locals 0 1 1 0 1 (store uninitialised 0 0%float) in
    0 <= m <= sizeof_set
    /\ sizeof_set = sizeof_pointer
    /\ m_count (mean_locals_at_return set value_to_search_for n) = m
    /\ p_mean = double_of_size_t (m / sizeof_set)
    /\ (m < sizeof_set -> p_mean = 0%float)
    /\ (p_mean = 0%float \/ p_mean = 1%float)
    /\ p_mean <> 0.6%float
    /\ pmf_body set value_to_search_for n pmf_entry = Returns after_first
    /\ p (pmf_estimate set value_to_search_for after_first) = m / sizeof_set
    /\ (m < sizeof_set -> p (pmf_estimate set value_to_search_for after_first) = 0)
    /\ (forall s : pmf_locals,
          0 <= count s < 2 ^ 62 ->
          p (pmf_estimate set value_to_search_for s) = (count s + m) / sizeof_set).
Proof.
  intros set v n m p_mean after_first.
  pose proof (matches_range set v) as Hm. fold m in Hm.
  destruct (quotient_by_sizeof m Hm) as [Hlt Heq].
  assert (Ep : p_mean = double_of_size_t (m / sizeof_set)) by apply mean_p.
  assert (Hcases : p_mean = 0%float \/ p_mean = 1%float).
  { rewrite Ep. destruct (Z.eq_dec m sizeof_set) as [E|E].
    - right. rewrite (Heq E). reflexivity.
    - left. rewrite Hlt by lia. reflexivity. }
  assert (E1 : p (pmf_estimate set v after_first) = m / sizeof_set).
  { rewrite pmf_estimate_p by (cbn; lia). reflexivity. }
  split; [exact Hm|]. split; [reflexivity|].
  split; [cbn [mean_locals_at_return m_count]; apply count_loop_matches; lia|].
  split; [exact Ep|].
  split; [intros H; rewrite Ep, (Hlt H); reflexivity|].
  split; [exact Hcases|].
  split; [destruct Hcases as [-> | ->]; float_neq|].
  split; [reflexivity|]. split; [exact E1|].
  split; [intros H; rewrite E1; auto|].
  intros s Hs. apply pmf_estimate_p. exact Hs.
Qed.

Lemma p_is_quotient_by_pointer_size_witness :
  matches (example_samples (fun _ => 0%float)) 1 < sizeof_set
  /\ m_p (mean_locals_at_return (example_samples (fun _ => 0%float)) 1 4) = 0%float
  /\ p (pmf_estimate (example_samples (fun _ => 0%float)) 1
          (mk_pmf_locals 0 1 1 0 1 (store uninitialised 0 0%float))) = 0
  /\ p (pmf_estimate (example_samples (fun _ => 0%float)) 1 pmf_entry)
     = (count pmf_entry + matches (example_samples (fun _ => 0%float)) 1) / sizeof_set.
Proof.
  pose (H := p_is_quotient_by_pointer_size (example_samples (fun _ => 0%float)) 1 4).
  cbv zeta in H.
  destruct H as (_ & _ & _ & _ & Hm & _ & _ & _ & _ & Hp & Hs).
  split; [vm_compute; reflexivity|].
  split; [apply Hm; vm_compute; reflexivity|].
  split; [apply Hp; vm_compute; reflexivity|].
  apply Hs. cbn. lia.
Defined.

(** C9 as stated fails in [pmf] at samples [[1,1,1,1,0,0,0,0]], target 1
    and trial count 3: only 4 of the 8 examined cells match, yet the round
    with [iteration = 2] assigns [p = 8 / 8 = 1], because [count] is not
    reset and already holds the 4 matches the round before counted. *)
Lemma p_nonzero_with_few_matches :
  matches half_matching 1 = 4
  /\ 4 < sizeof_set
  /\ exists s1 s2 : pmf_locals,
       pmf_body half_matching 1 3 pmf_entry = Returns s1
       /\ pmf_body half_matching 1 3 s1 = Returns s2
       /\ iteration s2 = 2 /\ 2 < 3
       /\ count s2 = 4
       /\ p (pmf_estimate half_matching 1 s2) = 1
       /\ p (pmf_estimate half_matching 1 s2) <> 0.
Proof.
  split; [vm_compute; reflexivity|]. split; [reflexivity|].
  eexists. eexists.
  split; [vm_compute; reflexivity|].
  split; [vm_compute; reflexivity|].
  split; [reflexivity|]. split; [lia|].
  split; [vm_compute; reflexivity|].
  split; [vm_compute; reflexivity|].
  vm_compute. discriminate.
Qed.

(** ** More on [gauss_sum] *)

Lemma gauss_sum_exact_negative n :
  - 46341 <= n <= -1 ->
  int_div (int_mul n (int_add n 1)) 2 = n * (n + 1) / 2.
Proof.
  intros Hn. unfold int_div, int_mul, int_add.
  rewrite (wrap_signed_int (n + 1)) by (unfold in_int; lia).
  assert (Hp : 0 <= n * (n + 1) <= 2147441940) by nia.
  rewrite (wrap_signed_int (n * (n + 1))) by (unfold in_int; lia).
  rewrite Z.quot_div_nonneg by lia.
  apply wrap_signed_int. unfold in_int.
  assert (0 <= n * (n + 1) / 2 <= 2147441940).
  { split; [apply Z.div_pos; lia | apply Z.div_le_upper_bound; lia]. }
  lia.
Qed.

(** X1: [gauss_sum] has no test on the sign of [n].  For a negative [n]
    down to [-46341] it evaluates the same closed form without overflow,
    which makes it symmetric about [-1/2]: [gauss_sum (-1 - n)] is
    [gauss_sum n] for every [n] with [0 <= n <= 46340], and both are the
    [double] of [n*(n+1)/2]. *)
Theorem gauss_sum_reflection :
  forall n : Z,
    0 <= n <= 46340 ->
    gauss_sum (- 1 - n) = gauss_sum n
    /\ gauss_sum (- 1 - n) = double_of_long (n * (n + 1) / 2).
Proof.
  intros n Hn.
  assert (E : gauss_sum (- 1 - n) = double_of_long (n * (n + 1) / 2)).
  { unfold gauss_sum. rewrite gauss_sum_exact_negative by lia.
    do 2 f_equal. ring. }
  split; [|exact E].
  rewrite E. unfold gauss_sum. now rewrite gauss_sum_exact.
Qed.

Lemma gauss_sum_reflection_witness :
  0 <= 5 <= 46340
  /\ gauss_sum (- 1 - 5) = gauss_sum 5
  /\ gauss_sum (- 1 - 5) = double_of_long (5 * (5 + 1) / 2).
Proof.
  split; [lia | apply (gauss_sum_reflection 5); lia].
Defined.

(** ** More on [combination] and [permutation] *)

Lemma binomial_above n : forall r, (n < r)%nat -> binomial n r = 0.
Proof.
  induction n as [|n IH]; intros [|r] H; try lia; cbn [binomial].
  - reflexivity.
  - rewrite !IH by lia. reflexivity.
Qed.

Lemma product_to_succ k : product_to (S k) = product_to k * Z.of_nat (S k).
Proof. reflexivity. Qed.

(** [n! = C(n, r) * r! * (n - r)!]. *)
Lemma binomial_product n :
  forall r, (r <= n)%nat ->
    binomial n r * (product_to r * product_to (n - r)) = product_to n.
Proof.
  induction n as [|n IH]; intros [|r] H; try lia.
  - reflexivity.
  - cbn [binomial]. rewrite Nat.sub_0_r. change (product_to 0) with 1. lia.
  - cbn [binomial]. replace (S n - S r)%nat with (n - r)%nat by lia.
    pose proof (IH r ltac:(lia)) as H1.
    rewrite (product_to_succ n), (product_to_succ r).
    destruct (Nat.eq_dec r n) as [->|Hne].
    + rewrite (binomial_above n (S n)) by lia.
      rewrite Nat.sub_diag in *. change (product_to 0) with 1 in *.
      rewrite <- H1 at 2. ring.
    + pose proof (IH (S r) ltac:(lia)) as H2.
      rewrite (product_to_succ r) in H2.
      replace (n - r)%nat with (S (n - S r)) in * by lia.
      rewrite (product_to_succ (n - S r)) in *.
      replace (Z.of_nat (S n)) with (Z.of_nat (S r) + Z.of_nat (S (n - S r))) by lia.
      rewrite Z.mul_add_distr_l.
      rewrite <- H1 at 1. rewrite <- H2 at 1. ring.
Qed.

Lemma combination_binomial n r :
  0 <= r <= n -> n <= 966 ->
  combination n r = Returns (binomial (Z.to_nat n) (Z.to_nat r)).
Proof.
  intros H Hn. rewrite combination_returns by assumption. f_equal.
  pose proof (binomial_product (Z.to_nat n) (Z.to_nat r) ltac:(lia)) as E.
  replace (Z.to_nat n - Z.to_nat r)%nat with (Z.to_nat (n - r)) in E by lia.
  pose proof (product_to_pos (Z.to_nat r)).
  pose proof (product_to_pos (Z.to_nat (n - r))).
  rewrite <- E, (Z.mul_comm (product_to (Z.to_nat (n - r)))).
  apply Z.quot_mul. nia.
Qed.

(** Where [combination] gets to its product and quotient, both are within
    the width of [double8192_t]. *)
Lemma combination_stays_in_width n r f g h :
  factorial n = Returns f -> factorial (n - r) = Returns g ->
  factorial r = Returns h ->
  0 < g * h <= f /\ f < 2 ^ WIDE_BITS /\ 0 < f ÷ (g * h) <= f.
Proof.
  intros Ef Eg Eh.
  assert (Hn : 0 <= n <= 966).
  { destruct (Z.lt_ge_cases n 0) as [H|H];
      [rewrite factorial_fails in Ef by lia; discriminate Ef|].
    destruct (Z.le_gt_cases n 966) as [H'|H']; [lia|].
    rewrite factorial_overflows in Ef by lia. discriminate Ef. }
  assert (Hnr : 0 <= n - r).
  { destruct (Z.lt_ge_cases (n - r) 0) as [H|H]; [|lia].
    rewrite factorial_fails in Eg by lia. discriminate Eg. }
  assert (Hr : 0 <= r).
  { destruct (Z.lt_ge_cases r 0) as [H|H]; [|lia].
    rewrite factorial_fails in Eh by lia. discriminate Eh. }
  rewrite factorial_returns in Ef, Eg, Eh by lia.
  assert (f = product_to (Z.to_nat n)) as -> by congruence.
  assert (g = product_to (Z.to_nat (n - r))) as -> by congruence.
  assert (h = product_to (Z.to_nat r)) as -> by congruence.
  pose proof (binomial_product (Z.to_nat n) (Z.to_nat r) ltac:(lia)) as E.
  replace (Z.to_nat n - Z.to_nat r)%nat with (Z.to_nat (n - r)) in E by lia.
  pose proof (product_to_pos (Z.to_nat n)).
  pose proof (product_to_pos (Z.to_nat r)).
  pose proof (product_to_pos (Z.to_nat (n - r))).
  assert (Hb : 0 < binomial (Z.to_nat n) (Z.to_nat r)) by nia.
  assert (Hq : product_to (Z.to_nat n)
               ÷ (product_to (Z.to_nat (n - r)) * product_to (Z.to_nat r))
               = binomial (Z.to_nat n) (Z.to_nat r)).
  { rewrite <- E, (Z.mul_comm (product_to (Z.to_nat (n - r)))).
    apply Z.quot_mul. nia. }
  rewrite Hq.
  assert (Hgh : 0 < product_to (Z.to_nat (n - r)) * product_to (Z.to_nat r)) by nia.
  rewrite (Z.mul_comm (product_to (Z.to_nat r))) in E.
  split; [|split].
  - split; [exact Hgh|]. rewrite <- E. nia.
  - apply product_to_fits. lia.
  - split; [exact Hb|]. rewrite <- E. nia.
Qed.



(** X4: [permutation] is [combination] times the factorial of [r]: for
    [0 <= r <= n <= 966], with [c] and [h] the results of [combination n r]
    and [factorial r], [permutation n r] returns [c * h].  At the ends,
    [permutation n 0] returns 1 and [permutation n n] returns what
    [factorial n] does. *)
Theorem permutation_of_combination :
  forall n r : Z,
    0 <= r <= n -> n <= 966 ->
    (exists c h : Z,
       combination n r = Returns c
       /\ factorial r = Returns h
       /\ permutation n r = Returns (c * h))
    /\ permutation n 0 = Returns 1
    /\ permutation n n = factorial n.
Proof.
  intros n r H Hb.
  pose proof (product_to_pos (Z.to_nat n)) as Hf.
  split; [|split].
  - pose proof (binomial_product (Z.to_nat n) (Z.to_nat r) ltac:(lia)) as E.
    replace (Z.to_nat n - Z.to_nat r)%nat with (Z.to_nat (n - r)) in E by lia.
    pose proof (product_to_pos (Z.to_nat (n - r))) as Hg.
    exists (binomial (Z.to_nat n) (Z.to_nat r)), (product_to (Z.to_nat r)).
    split; [now apply combination_binomial|].
    split; [apply factorial_returns; lia|].
    rewrite permutation_returns by lia. f_equal.
    rewrite <- E, Z.mul_assoc. apply Z.quot_mul. lia.
  - rewrite permutation_returns by lia. rewrite Z.sub_0_r.
    now rewrite Z.quot_same by lia.
  - rewrite permutation_returns, factorial_returns by lia.
    rewrite Z.sub_diag. change (product_to (Z.to_nat 0)) with 1.
    now rewrite Z.quot_1_r.
Qed.

Lemma permutation_of_combination_witness :
  0 <= 2 <= 5 /\ 5 <= 966
  /\ (exists c h : Z,
        combination 5 2 = Returns c
        /\ factorial 2 = Returns h
        /\ permutation 5 2 = Returns (c * h))
  /\ permutation 5 0 = Returns 1
  /\ permutation 5 5 = factorial 5.
Proof.
  split; [lia|]. split; [lia | apply (permutation_of_combination 5 2); lia].
Defined.

(** ** More on [divisibility_theorem] *)

Lemma for_from_constant_body {S : Type} (f : S -> S) rounds :
  forall l l' s, for_from rounds l (fun _ => f) s = for_from rounds l' (fun _ => f) s.
Proof.
  induction rounds as [|k IH]; intros l l' s.
  - reflexivity.
  - cbn [for_from]. apply IH.
Qed.

(** After a round, [b] holds the quotient. *)
Lemma divisibility_loop_b a b interations :
  1 <= interations ->
  dl_b (divisibility_loop a b interations) = dl_q (divisibility_loop a b interations).
Proof.
  intros H. now rewrite divisibility_loop_last.
Qed.

(** X6: from the second round on, the divisor is the previous quotient and
    [b] plays no part.  If [interations >= 1] rounds return [(q, r)], one
    round more returns [(a / q, a - a / q)]. *)
Theorem divisibility_theorem_next_round :
  forall (a b : float) (interations : Z) (q r : float),
    1 <= interations ->
    divisibility_theorem a b interations = Returns (q, r) ->
    divisibility_theorem a b (interations + 1)
    = Returns ((a / q)%float, (a - a / q)%float).
Proof.
  intros a b n q r Hn E.
  apply (f_equal quotient_of) in E. unfold divisibility_theorem in E.
  cbn [ret quotient_of] in E.
  unfold divisibility_theorem.
  rewrite (divisibility_loop_last a b (n + 1)) by lia.
  replace (n + 1 - 1) with n by lia.
  unfold divisibility_step. rewrite divisibility_loop_b by assumption.
  rewrite E. reflexivity.
Qed.

Lemma divisibility_theorem_next_round_witness :
  1 <= 1
  /\ divisibility_theorem 17 5 1 = Returns ((17 / 5)%float, (17 - 17 / 5)%float)
  /\ divisibility_theorem 17 5 (1 + 1)
     = Returns ((17 / (17 / 5))%float, (17 - 17 / (17 / 5))%float).
Proof.
  split; [lia|]. split; [reflexivity|].
  apply (divisibility_theorem_next_round 17 5 1 (17 / 5)%float (17 - 17 / 5)%float).
  - lia.
  - reflexivity.
Defined.

(** X7: the first round does nothing but replace [b] by [a / b]: for
    [interations >= 1], [interations + 1] rounds on [(a, b)] return what
    [interations] rounds on [(a, a / b)] return. *)
Theorem divisibility_theorem_first_round :
  forall (a b : float) (interations : Z),
    1 <= interations ->
    divisibility_theorem a b (interations + 1)
    = divisibility_theorem a (a / b)%float interations.
Proof.
  intros a b n Hn. unfold divisibility_theorem. f_equal.
  assert (E : divisibility_loop a b (n + 1) = divisibility_loop a (a / b)%float n).
  { unfold divisibility_loop, for_long.
    replace (Z.to_nat (n + 1)) with (S (Z.to_nat n)) by lia.
    replace (Z.to_nat n) with (S (Z.to_nat (n - 1))) by lia.
    cbn [for_from].
    rewrite (for_from_constant_body (divisibility_step a) (Z.to_nat (n - 1))
               (0 + 1 + 1) (0 + 1)).
    reflexivity. }
  now rewrite E.
Qed.

Lemma divisibility_theorem_first_round_witness :
  1 <= 9
  /\ divisibility_theorem 17 5 (9 + 1) = divisibility_theorem 17 (17 / 5)%float 9.
Proof.
  split; [lia | apply (divisibility_theorem_first_round 17 5 9); lia].
Defined.

(** ** More on [pmf] *)

(** X8: for a trial count [n] up to [sizeof(set)], [pmf] returns and has
    written the cells [0 .. max 1 n - 1] of [result] and no other: one cell
    even when [n <= 0].  For a larger [n], up to the last one whose
    factorial fits the width, the round with [iteration = sizeof(set)]
    stores outside the [sizeof(set)] cells of [result], and the call has
    undefined behaviour. *)
Theorem pmf_cells_written :
  forall (set : array) (value_to_search_for : float) (number_of_iteraions : Z),
    (number_of_iteraions <= sizeof_set ->
     exists res : buffer,
       pmf set value_to_search_for number_of_iteraions = Returns res
       /\ (forall j : Z, res j <> None <-> 0 <= j < Z.max 1 number_of_iteraions))
    /\ (sizeof_set < number_of_iteraions <= 966 ->
        pmf set value_to_search_for number_of_iteraions = Undefined).
Proof.
  intros set v n. split.
  - intros Hn.
    destruct (pmf_returns set v n Hn) as (res & E & _ & Hin & Hout).
    exists res. split; [exact E|].
    intros j. split.
    + intros Hj. destruct (Z.lt_ge_cases j 0) as [H|H].
      { exfalso. apply Hj, Hout. lia. }
      destruct (Z.lt_ge_cases j (Z.max 1 n)) as [H'|H']; [lia|].
      exfalso. apply Hj, Hout. lia.
    + apply Hin.
  - apply pmf_overruns.
Qed.

Lemma pmf_cells_written_witness :
  (3 <= sizeof_set /\ sizeof_set < 12 <= 966)
  /\ (exists res : buffer,
        pmf (example_samples (fun _ => 0%float)) 1 3 = Returns res
        /\ (forall j : Z, res j <> None <-> 0 <= j < Z.max 1 3))
  /\ pmf (example_samples (fun _ => 0%float)) 1 12 = Undefined.
Proof.
  split; [change sizeof_set with 8; lia|]. split.
  - apply (proj1 (pmf_cells_written (example_samples (fun _ => 0%float)) 1 3)).
    change sizeof_set with 8; lia.
  - apply (proj2 (pmf_cells_written (example_samples (fun _ => 0%float)) 1 12)).
    change sizeof_set with 8; lia.
Defined.

(** X9: with a trial count of 1 or less, negative counts included, [pmf]
    makes the one round of [iteration = 0] and returns the buffer whose
    only written cell is cell 0, holding 0, whatever the samples and the
    target are. *)
Theorem pmf_single_round :
  forall (set : array) (value_to_search_for : float) (number_of_iteraions : Z),
    number_of_iteraions <= 1 ->
    pmf set value_to_search_for number_of_iteraions
    = Returns (store uninitialised 0 0%float).
Proof.
  intros set v n Hn. unfold pmf, pmf_locals_at_return.
  destruct (Z.to_nat n) as [|fuel]; cbn [pmf_do_while];
    rewrite pmf_body_entry; cbn [bind iteration];
    destruct (Z.ltb_spec 1 n) as [Hlt|_]; try lia; reflexivity.
Qed.

Lemma pmf_single_round_witness :
  -3 <= 1
  /\ pmf (example_samples (fun _ => 0%float)) 1 (-3)
     = Returns (store uninitialised 0 0%float).
Proof.
  split; [lia | apply (pmf_single_round (example_samples (fun _ => 0%float)) 1 (-3)); lia].
Defined.

Lemma for_from_ext {S : Type} (body body' : Z -> S -> S) rounds :
  forall l s,
    (forall i s0, l <= i < l + Z.of_nat rounds -> body i s0 = body' i s0) ->
    for_from rounds l body s = for_from rounds l body' s.
Proof.
  induction rounds as [|k IH]; intros l s H.
  - reflexivity.
  - cbn [for_from]. rewrite (H l s) by lia. apply IH.
    intros i s0 Hi. apply H. lia.
Qed.

Lemma count_loop_ext set set' v c :
  (forall l, 0 <= l < sizeof_set -> set l = set' l) ->
  count_loop set v c = count_loop set' v c.
Proof.
  intros H. unfold count_loop, for_size_t. apply for_from_ext.
  intros i s0 Hi. rewrite H; [reflexivity|].
  change (Z.of_nat (Z.to_nat sizeof_set)) with sizeof_set in Hi. lia.
Qed.

Lemma pmf_body_ext set set' v n s :
  (forall l, 0 <= l < sizeof_set -> set l = set' l) ->
  pmf_body set v n s = pmf_body set' v n s.
Proof.
  intros H. unfold pmf_body, pmf_estimate.
  now rewrite (count_loop_ext set set' v (count s) H).
Qed.

Lemma pmf_do_while_ext set set' v n :
  (forall l, 0 <= l < sizeof_set -> set l = set' l) ->
  forall fuel s, pmf_do_while fuel set v n s = pmf_do_while fuel set' v n s.
Proof.
  intros H. induction fuel as [|fuel IH]; intros s; cbn [pmf_do_while];
    rewrite (pmf_body_ext set set' v n s H).
  - reflexivity.
  - destruct (pmf_body set' v n s) as [s'|e|]; cbn [bind]; [|reflexivity|reflexivity].
    now rewrite IH.
Qed.

(** X10: [pmf] and [mean] look at the cells [0 .. sizeof(set) - 1] of the
    samples and at no other.  Two sample arrays that agree on those cells
    give the same [pmf] result and leave [mean] with the same [count] and
    [p], however they differ afterwards. *)
Theorem only_first_cells_are_read :
  forall (set set' : array) (value_to_search_for : float) (n : Z),
    (forall l : Z, 0 <= l < sizeof_set -> set l = set' l) ->
    pmf set value_to_search_for n = pmf set' value_to_search_for n
    /\ mean_locals_at_return set value_to_search_for n
       = mean_locals_at_return set' value_to_search_for n.
Proof.
  intros set set' v n H. split.
  - unfold pmf, pmf_locals_at_return. now rewrite (pmf_do_while_ext set set' v n H).
  - unfold mean_locals_at_return. now rewrite (count_loop_ext set set' v 0 H).
Qed.

Lemma only_first_cells_are_read_witness :
  pmf (array_of [1; 1; 1; 1; 0; 0; 0; 0; 1; 1]%float (fun _ => 1%float)) 1 4
  = pmf half_matching 1 4
  /\ mean_locals_at_return
       (array_of [1; 1; 1; 1; 0; 0; 0; 0; 1; 1]%float (fun _ => 1%float)) 1 4
     = mean_locals_at_return half_matching 1 4.
Proof.
  apply (only_first_cells_are_read
           (array_of [1; 1; 1; 1; 0; 0; 0; 0; 1; 1]%float (fun _ => 1%float))
           half_matching 1 4).
  intros l Hl. change sizeof_set with 8 in Hl.
  assert (Hc : l = 0 \/ l = 1 \/ l = 2 \/ l = 3 \/ l = 4 \/ l = 5 \/ l = 6 \/ l = 7) by lia.
  destruct Hc as [-> | [-> | [-> | [-> | [-> | [-> | [-> | ->]]]]]]]; reflexivity.
Defined.

(** Squaring leaves 0 and 1 where they are, however many rounds are made. *)
Lemma square_loop_fixed x rounds :
  x = 0 \/ x = 1 ->
  forall l, for_from rounds l (fun _ y => long_mul y y) x = x.
Proof.
  intros Hx. induction rounds as [|k IH]; intros l.
  - reflexivity.
  - cbn [for_from]. destruct Hx as [-> | ->].
    + change (long_mul 0 0) with 0. apply IH.
    + change (long_mul 1 1) with 1. apply IH.
Qed.

(** With [p] at 0 or 1 before the power loops, the product stored is 0. *)
Lemma term_is_zero c p0 rounds rounds' :
  p0 = 0 \/ p0 = 1 ->
  long_mul
    (long_mul c (for_from rounds 0 (fun _ y => long_mul y y) p0))
    (for_from rounds' 0 (fun _ y => long_mul y y) (long_sub 1 p0)) = 0.
Proof.
  intros [-> | ->].
  - rewrite square_loop_fixed by (left; reflexivity).
    change (long_sub 1 0) with 1.
    rewrite square_loop_fixed by (right; reflexivity).
    unfold long_mul at 2. rewrite Z.mul_0_r. reflexivity.
  - rewrite square_loop_fixed by (right; reflexivity).
    change (long_sub 1 1) with 0.
    rewrite square_loop_fixed by (left; reflexivity).
    unfold long_mul at 1. rewrite Z.mul_0_r. reflexivity.
Qed.

(** A round that starts with [1 <= iteration < number_of_iteraions], inside
    the array, with what it stores. *)
Lemma pmf_body_later_value set v n s :
  n <= 966 -> 1 <= iteration s < n -> iteration s < sizeof_set ->
  let e := pmf_estimate set v s in
  let p' := for_long (iteration s) (fun _ y => long_mul y y) (p e) in
  let q' := for_size_t (sizeof_minus (iteration s)) (fun _ y => long_mul y y) (q e) in
  exists c,
    pmf_body set v n s
    = Returns (mk_pmf_locals (count e) (long_of_wide c) p' q' (iteration s + 1)
                 (store (result s) (iteration s)
                    (double_of_long (long_mul (long_mul (long_of_wide c) p') q')))).
Proof.
  intros Hn Hk Hs e p' q'. unfold pmf_body.
  destruct (Z.eqb_spec (iteration s) 0) as [E|_]; [lia|].
  destruct (Z.gtb_spec (iteration s) 0) as [_|E]; [|lia].
  unfold pmf_term, store_result. fold e.
  replace (iteration e) with (iteration s) by reflexivity.
  replace (result e) with (result s) by reflexivity.
  rewrite combination_returns by lia. cbn [bind].
  destruct (Z.leb_spec 0 (iteration s)) as [_|E]; [|lia].
  destruct (Z.ltb_spec (iteration s) sizeof_set) as [_|E]; [|lia].
  cbn [andb bind ret iteration count result ncr p q].
  eexists. fold p' q'.
  replace (long_add (iteration s) 1) with (iteration s + 1); [reflexivity|].
  unfold long_add. symmetry. apply wrap_signed_long. unfold in_long. lia.
Qed.

Lemma estimate_is_0_or_1 set v s :
  0 <= count s -> count s + matches set v < 2 * sizeof_set ->
  p (pmf_estimate set v s) = 0 \/ p (pmf_estimate set v s) = 1.
Proof.
  intros H0 H. pose proof (matches_range set v) as Hm.
  change sizeof_set with 8 in *.
  rewrite pmf_estimate_p by lia. change sizeof_set with 8.
  destruct (Z.lt_ge_cases (count s + matches set v) 8) as [Hlt|Hge].
  - left. apply Z.div_small. lia.
  - right. symmetry. apply (Z.div_unique _ 8 1 (count s + matches set v - 8)); lia.
Qed.

Lemma pmf_do_while_zero set v n :
  n <= sizeof_set ->
  forall fuel s,
    1 <= iteration s < n ->
    n - iteration s - 1 <= Z.of_nat fuel ->
    exists s',
      pmf_do_while fuel set v n s = Returns s'
      /\ (forall j, j < iteration s -> result s' j = result s j)
      /\ (forall j, iteration s <= j < n ->
            0 <= count s ->
            count s + (j - iteration s + 1) * matches set v < 2 * sizeof_set ->
            result s' j = Some 0%float).
Proof.
  intros Hn. pose proof (matches_range set v) as Hm. change sizeof_set with 8 in *.
  assert (Hb : forall s, 1 <= iteration s < n ->
            n <= 966 /\ 1 <= iteration s < n /\ iteration s < sizeof_set)
    by (intros; change sizeof_set with 8; lia).
  induction fuel as [|fuel IH]; intros s Hk Hf;
    destruct (Hb s Hk) as (H1 & H2 & H3);
    destruct (pmf_body_later_value set v n s H1 H2 H3) as (c & E);
    cbv zeta in E;
    match type of E with
    | _ = Returns ?s1 => set (s1' := s1) in *
    end;
    cbn [pmf_do_while]; rewrite E; cbn [bind ret];
    replace (iteration s1') with (iteration s + 1) by reflexivity.
  - destruct (Z.ltb_spec (iteration s + 1) n) as [Hlt|Hge]; [lia|].
    exists s1'. split; [reflexivity|]. split.
    + intros j Hj. subst s1'. cbn [result]. unfold store.
      destruct (Z.eqb_spec j (iteration s)); [lia | reflexivity].
    + intros j Hj H0 Hj'. assert (j = iteration s) as -> by lia.
      subst s1'. cbn [result]. unfold store. rewrite Z.eqb_refl. f_equal.
      unfold for_long, for_size_t. rewrite term_is_zero; [reflexivity|].
      apply estimate_is_0_or_1; [assumption|].
      replace (iteration s - iteration s + 1) with 1 in Hj' by lia.
      change sizeof_set with 8. lia.
  - destruct (Z.ltb_spec (iteration s + 1) n) as [Hlt|Hge].
    + destruct (IH s1') as (s' & E' & Hbelow & Hzero);
        [subst s1'; cbn [iteration]; lia | subst s1'; cbn [iteration]; lia |].
      exists s'. split; [exact E'|]. split.
      * intros j Hj. rewrite Hbelow by (subst s1'; cbn [iteration]; lia).
        subst s1'. cbn [result]. unfold store.
        destruct (Z.eqb_spec j (iteration s)); [lia | reflexivity].
      * intros j Hj H0 Hj'.
        destruct (Z.eq_dec j (iteration s)) as [->|Hne].
        -- rewrite Hbelow by (subst s1'; cbn [iteration]; lia).
           subst s1'. cbn [result]. unfold store. rewrite Z.eqb_refl. f_equal.
           unfold for_long, for_size_t. rewrite term_is_zero; [reflexivity|].
           apply estimate_is_0_or_1; [assumption|].
           replace (iteration s - iteration s + 1) with 1 in Hj' by lia.
           change sizeof_set with 8. lia.
        -- assert (Hc : count s1' = count s + matches set v).
           { subst s1'. cbn [count pmf_estimate]. apply count_loop_matches. nia. }
           apply Hzero.
           ++ subst s1'. cbn [iteration]. lia.
           ++ rewrite Hc. lia.
           ++ rewrite Hc. replace (iteration s1') with (iteration s + 1) by reflexivity.
              nia.
    + exists s1'. split; [reflexivity|]. split.
      * intros j Hj. subst s1'. cbn [result]. unfold store.
        destruct (Z.eqb_spec j (iteration s)); [lia | reflexivity].
      * intros j Hj H0 Hj'. assert (j = iteration s) as -> by lia.
        subst s1'. cbn [result]. unfold store. rewrite Z.eqb_refl. f_equal.
        unfold for_long, for_size_t. rewrite term_is_zero; [reflexivity|].
        apply estimate_is_0_or_1; [assumption|].
        replace (iteration s - iteration s + 1) with 1 in Hj' by lia.
        change sizeof_set with 8. lia.
Qed.

Lemma pmf_zero_where_few_matches set v n :
  n <= sizeof_set ->
  exists res,
    pmf set v n = Returns res
    /\ (forall j, 0 <= j < Z.max 1 n ->
          j * matches set v < 2 * sizeof_set -> res j = Some 0%float).
Proof.
  intros Hn. pose proof (matches_range set v) as Hm.
  unfold pmf, pmf_locals_at_return.
  destruct (Z.le_gt_cases n 1) as [Hle|Hgt].
  - destruct (Z.to_nat n) as [|fuel]; cbn [pmf_do_while];
      rewrite pmf_body_entry; cbn [bind iteration];
      (destruct (Z.ltb_spec 1 n) as [Hlt|_]; [lia|]);
      (eexists; split; [reflexivity|]);
      intros j Hj _; replace j with 0 by lia; reflexivity.
  - destruct (Z.to_nat n) as [|fuel] eqn:Ef; [lia|].
    cbn [pmf_do_while]. rewrite pmf_body_entry. cbn [bind iteration].
    destruct (Z.ltb_spec 1 n) as [_|Hge]; [|lia].
    destruct (pmf_do_while_zero set v n Hn fuel
                (mk_pmf_locals 0 1 1 0 1 (store uninitialised 0 0%float)))
      as (s' & E & Hbelow & Hzero); cbn [iteration count result] in *; [lia | lia |].
    rewrite E. cbn [bind ret]. exists (result s'). split; [reflexivity|].
    intros j Hj Hb. destruct (Z.eq_dec j 0) as [->|Hne].
    + rewrite Hbelow by lia. reflexivity.
    + apply Hzero; lia.
Qed.

(** X11: a cell of [pmf] is 0 wherever the running count stays below
    [2 * sizeof(set)].  For a trial count up to [sizeof(set)], with [m] the
    number of matching cells, every written cell [j] with
    [j * m < 2 * sizeof(set)] holds exactly 0, because there [p] is 0 or 1
    and [p * (1 - p)] vanishes.  So cell 1 is 0 for every such input, and
    when no examined cell equals the target every written cell is 0. *)
Theorem pmf_zero_cells :
  forall (set : array) (value_to_search_for : float) (number_of_iteraions : Z),
    number_of_iteraions <= sizeof_set ->
    exists res : buffer,
      pmf set value_to_search_for number_of_iteraions = Returns res
      /\ (forall j : Z,
            0 <= j < Z.max 1 number_of_iteraions ->
            j * matches set value_to_search_for < 2 * sizeof_set ->
            res j = Some 0%float)
      /\ (1 < number_of_iteraions -> res 1 = Some 0%float)
      /\ (matches set value_to_search_for = 0 ->
          forall j : Z, 0 <= j < Z.max 1 number_of_iteraions -> res j = Some 0%float).
Proof.
  intros set v n Hn. pose proof (matches_range set v) as Hm.
  change sizeof_set with 8 in Hm.
  destruct (pmf_zero_where_few_matches set v n Hn) as (res & E & Hz).
  exists res. split; [exact E|]. split; [exact Hz|]. split.
  - intros H. apply Hz; [lia|]. change sizeof_set with 8. lia.
  - intros H0 j Hj. apply Hz; [exact Hj|]. rewrite H0. change sizeof_set with 8. lia.
Qed.

Lemma pmf_zero_cells_witness :
  4 <= sizeof_set
  /\ exists res : buffer,
       pmf half_matching 1 4 = Returns res
       /\ res 3 = Some 0%float
       /\ res 1 = Some 0%float.
Proof.
  split; [change sizeof_set with 8; lia|].
  destruct (pmf_zero_cells half_matching 1 4) as (res & E & Hz & H1 & _).
  { change sizeof_set with 8; lia. }
  exists res. split; [exact E|]. split.
  - apply Hz; [lia | vm_compute; reflexivity].
  - apply H1. lia.
Defined.

Lemma pmf_do_while_count set v n :
  n <= sizeof_set ->
  forall fuel s,
    1 <= iteration s < n ->
    n - iteration s - 1 <= Z.of_nat fuel ->
    0 <= count s < 2 ^ 61 ->
    exists s',
      pmf_do_while fuel set v n s = Returns s'
      /\ count s' = count s + (n - iteration s) * matches set v.
Proof.
  intros Hn. pose proof (matches_range set v) as Hm. change sizeof_set with 8 in *.
  assert (Hb : forall s, 1 <= iteration s < n ->
            n <= 966 /\ 1 <= iteration s < n /\ iteration s < sizeof_set)
    by (intros; change sizeof_set with 8; lia).
  assert (Hloop : forall fuel s,
            1 <= iteration s < n ->
            n - iteration s - 1 <= Z.of_nat fuel ->
            0 <= count s -> count s + (n - iteration s) * 8 < 2 ^ 62 ->
            exists s',
              pmf_do_while fuel set v n s = Returns s'
              /\ count s' = count s + (n - iteration s) * matches set v).
  { induction fuel as [|fuel IH]; intros s Hk Hf H0 Hc0;
      destruct (Hb s Hk) as (H1 & H2 & H3);
      destruct (pmf_body_later set v n s H1 H2 H3) as (s1 & x & E & Hi & Hc & _);
      rewrite count_loop_matches in Hc by lia;
      cbn [pmf_do_while]; rewrite E; cbn [bind ret].
    - destruct (Z.ltb_spec (iteration s1) n) as [Hlt|Hge]; [lia|].
      exists s1. split; [reflexivity|]. rewrite Hc. nia.
    - destruct (Z.ltb_spec (iteration s1) n) as [Hlt|Hge].
      + destruct (IH s1) as (s' & E' & Hc'); [lia | lia | lia | nia |].
        exists s'. split; [exact E'|]. rewrite Hc', Hc, Hi. ring.
      + exists s1. split; [reflexivity|]. rewrite Hc. nia. }
  intros fuel s Hk Hf Hc. apply Hloop; lia.
Qed.

(** X12: [pmf] never resets [count]: every round after the first adds the
    number [m] of matching cells to it.  For a trial count [n] up to
    [sizeof(set)], [pmf] reaches its [return] with
    [count = (max 1 n - 1) * m]. *)
Theorem pmf_count_is_never_reset :
  forall (set : array) (value_to_search_for : float) (number_of_iteraions : Z),
    number_of_iteraions <= sizeof_set ->
    exists s : pmf_locals,
      pmf_locals_at_return set value_to_search_for number_of_iteraions = Returns s
      /\ count s
         = (Z.max 1 number_of_iteraions - 1) * matches set value_to_search_for.
Proof.
  intros set v n Hn.
  unfold pmf_locals_at_return.
  destruct (Z.le_gt_cases n 1) as [Hle|Hgt].
  - destruct (Z.to_nat n) as [|fuel]; cbn [pmf_do_while];
      rewrite pmf_body_entry; cbn [bind iteration];
      (destruct (Z.ltb_spec 1 n) as [Hlt|_]; [lia|]);
      (eexists; split; [reflexivity|]); cbn [count];
      replace (Z.max 1 n) with 1 by lia; reflexivity.
  - destruct (Z.to_nat n) as [|fuel] eqn:Ef; [lia|].
    cbn [pmf_do_while]. rewrite pmf_body_entry. cbn [bind iteration].
    destruct (Z.ltb_spec 1 n) as [_|Hge]; [|lia].
    destruct (pmf_do_while_count set v n Hn fuel
                (mk_pmf_locals 0 1 1 0 1 (store uninitialised 0 0%float)))
      as (s' & E & Hc); cbn [iteration count] in *; [lia | lia | lia |].
    exists s'. split; [exact E|]. rewrite Hc.
    replace (Z.max 1 n) with n by lia. ring.
Qed.

Lemma pmf_count_is_never_reset_witness :
  4 <= sizeof_set
  /\ exists s : pmf_locals,
       pmf_locals_at_return half_matching 1 4 = Returns s
       /\ count s = (Z.max 1 4 - 1) * matches half_matching 1.
Proof.
  split; [change sizeof_set with 8; lia|].
  apply (pmf_count_is_never_reset half_matching 1 4). change sizeof_set with 8; lia.
Defined.

(** ** Comparisons with NaN *)

Lemma eqb_nan_right x : (x =? nan)%float = false.
Proof.
  rewrite eqb_spec. replace (Prim2SF nan) with S754_nan by reflexivity.
  destruct (Prim2SF x); reflexivity.
Qed.

Lemma eqb_nan_left x : (nan =? x)%float = false.
Proof.
  rewrite eqb_spec. replace (Prim2SF nan) with S754_nan by reflexivity.
  destruct (Prim2SF x); reflexivity.
Qed.

Lemma filter_none {A : Type} (f : A -> bool) (l : list A) :
  (forall x, In x l -> f x = false) -> filter f l = [].
Proof.
  induction l as [|a l IH]; intros H.
  - reflexivity.
  - cbn [filter]. rewrite (H a) by (left; reflexivity).
    apply IH. intros x Hx. apply H. right. exact Hx.
Qed.

Lemma matches_none set v :
  (forall l, 0 <= l < sizeof_set -> (set l =? v)%float = false) ->
  matches set v = 0.
Proof.
  intros H. unfold matches. rewrite filter_none; [reflexivity|].
  intros x Hx. apply in_map_iff in Hx. destruct Hx as (i & <- & Hi).
  apply in_seq in Hi. apply H. change sizeof_set with 8.
  change (Z.to_nat sizeof_set) with 8%nat in Hi. lia.
Qed.

(** X13: a NaN never counts as a match, since [==] is false on it.  When
    the target is NaN, or when every examined cell is, the count and the
    [p] of [mean] are 0, and for a trial count up to [sizeof(set)] [pmf]
    returns 0 in every cell it writes. *)
Theorem nan_never_matches :
  forall (set : array) (value_to_search_for : float) (n : Z),
    value_to_search_for = nan
    \/ (forall l : Z, 0 <= l < sizeof_set -> set l = nan) ->
    m_count (mean_locals_at_return set value_to_search_for n) = 0
    /\ m_p (mean_locals_at_return set value_to_search_for n) = 0%float
    /\ (n <= sizeof_set ->
        exists res : buffer,
          pmf set value_to_search_for n = Returns res
          /\ forall j : Z, 0 <= j < Z.max 1 n -> res j = Some 0%float).
Proof.
  intros set v n H.
  assert (Hm : matches set v = 0).
  { apply matches_none. intros l Hl. destruct H as [-> | H].
    - apply eqb_nan_right.
    - rewrite (H l Hl). apply eqb_nan_left. }
  split; [|split].
  - cbn [mean_locals_at_return m_count]. rewrite count_loop_matches by lia.
    rewrite Hm. reflexivity.
  - rewrite mean_p, Hm. reflexivity.
  - intros Hn. destruct (pmf_zero_where_few_matches set v n Hn) as (res & E & Hz).
    exists res. split; [exact E|]. intros j Hj. apply Hz; [exact Hj|].
    rewrite Hm. change sizeof_set with 8. lia.
Qed.

Lemma nan_never_matches_witness :
  4 <= sizeof_set
  /\ m_count (mean_locals_at_return (fun _ => 1%float) nan 4) = 0
  /\ m_p (mean_locals_at_return (fun _ => 1%float) nan 4) = 0%float
  /\ exists res : buffer,
       pmf (fun _ => 1%float) nan 4 = Returns res
       /\ forall j : Z, 0 <= j < Z.max 1 4 -> res j = Some 0%float.
Proof.
  destruct (nan_never_matches (fun _ => 1%float) nan 4) as (Hc & Hp & Hr).
  { left. reflexivity. }
  split; [change sizeof_set with 8; lia|].
  split; [exact Hc|]. split; [exact Hp|].
  apply Hr. change sizeof_set with 8; lia.
Defined.
